(** * remote-python-dev: [src/main.py]

    The script defines the recursive function [calculate_fibonacci] and the
    entry point [main], which prints a start line, computes the value at
    index 10 and prints it.

    Python integers are unbounded, hence [Z]. *)

From Equations Require Import Equations.
From Stdlib Require Import ZArith List Lia String Ascii DecimalString Wf_nat.
Import ListNotations.

Local Open Scope Z_scope.

(** ** The function, as a total map on the integers *)

(** [calculate_fibonacci] (main.py, lines 6-10).  The recursion is on [n - 1]
    and [n - 2], neither of which is a subterm of [n]; it is justified by the
    measure [Z.to_nat n], which decreases because the recursive branch is only
    reached when [n > 1]. *)
Equations? calculate_fibonacci (n : Z) : Z by wf (Z.to_nat n) lt :=
  calculate_fibonacci n with Z_le_gt_dec n 1 := {
    | left _ => n
    | right _ => calculate_fibonacci (n - 1) + calculate_fibonacci (n - 2) }.
Proof. all: lia. Qed.

(** ** Console output and integer formatting *)

(** The line terminator written by [print]. *)
Definition newline : string := String "010"%char EmptyString.

(** [str] on an integer, as used by the f-string fields [{n}] and [{result}]:
    decimal digits, a leading minus sign for negative values. *)
Definition str (z : Z) : string := NilZero.string_of_int (Z.to_int z).

(** The only part of the process state the script touches: the characters
    written to standard output so far. *)
Record World : Type := mkWorld { stdout : string }.

(** Splits a chunk of output into its lines; [cur] accumulates the line being
    read.  A final line without terminator is kept. *)
Fixpoint lines_from (cur s : string) : list string :=
  match s with
  | EmptyString => if String.eqb cur "" then [] else [cur]
  | String c rest =>
      if Ascii.eqb c "010" then cur :: lines_from "" rest
      else lines_from (cur ++ String c EmptyString) rest
  end.

Definition lines (s : string) : list string := lines_from "" s.

(** ** The script as a program: state passing with a bound on call depth *)

Module Run.

(** A computation over a state [St]: it may change the state and return a
    value, or give up ([None]) because the nesting of calls exceeded the
    depth it was allowed. *)
Definition Py (St A : Type) : Type := St -> option (A * St).

Section Monad.
Context {St : Type}.

Definition ret {A} (a : A) : Py St A := fun s => Some (a, s).

Definition bind {A B} (m : Py St A) (k : A -> Py St B) : Py St B :=
  fun s => match m s with
           | Some (a, s') => k a s'
           | None => None
           end.

Definition too_deep {A} : Py St A := fun _ => None.
End Monad.

Notation "x <- m ;; k" := (bind m (fun x => k))
  (at level 61, m at next level, right associativity).
Notation "m ;; k" := (bind m (fun _ => k))
  (at level 61, right associativity).

(** [print(s)]: appends [s] and a line terminator to standard output. *)
Definition print (s : string) : Py World unit :=
  fun w => Some (tt, mkWorld (stdout w ++ s ++ newline)).

Section Body.
Context {St : Type}.

(** The body of [calculate_fibonacci] (lines 8-10).  The name
    [calculate_fibonacci] inside the body is looked up when the call is
    made; [self] stands for it.  The left operand of [+] is evaluated
    first. *)
Definition calculate_fibonacci_body (self : Z -> Py St Z) (n : Z) : Py St Z :=
  if n <=? 1 then ret n
  else
    a <- self (n - 1) ;;
    b <- self (n - 2) ;;
    ret (a + b).

(** A call of [calculate_fibonacci] that may nest at most [depth] frames,
    its own included. *)
Fixpoint calculate_fibonacci (depth : nat) (n : Z) : Py St Z :=
  match depth with
  | O => too_deep
  | S d => calculate_fibonacci_body (calculate_fibonacci d) n
  end.
End Body.

(** [main] (lines 12-19); it occupies one frame itself. *)
Definition main (depth : nat) : Py World unit :=
  match depth with
  | O => too_deep
  | S d =>
      print "Starting application..." ;;
      let n := 10 in
      result <- calculate_fibonacci d n ;;
      print ("The " ++ str n ++ "th Fibonacci number is: " ++ str result)
  end.

(** Lines 21-22: running the file as a script calls [main] once, on an
    empty standard output. *)
Definition script (depth : nat) : option (unit * World) :=
  main depth (mkWorld "").

End Run.

(** The arguments of the recursive calls one execution of the body makes at
    [n], in the order they are made: the body is run with a stand-in for
    [calculate_fibonacci] that records its argument and returns 0. *)
Definition recursive_calls (n : Z) : list Z :=
  match Run.calculate_fibonacci_body (fun m log => Some (0, log ++ [m])) n [] with
  | Some (_, log) => log
  | None => []
  end.

(** [callee m n]: a call on [n] makes a recursive call on [m]. *)
Definition callee (m n : Z) : Prop := In m (recursive_calls n).

(** The number of nested frames a call on [n] needs. *)
Definition frames (n : Z) : nat := Z.to_nat (Z.max 1 n).

(** ** The specification side *)

(** The Fibonacci numbers as the specification defines them:
    F(0) = 0, F(1) = 1, F(n) = F(n-1) + F(n-2) for n >= 2. *)
Fixpoint F (k : nat) : nat :=
  match k with
  | O => 0%nat
  | S k1 =>
      match k1 with
      | O => 1%nat
      | S k2 => (F k1 + F k2)%nat
      end
  end.

(** The reference table of the specification for the indices 2..20. *)
Definition reference_table : list Z :=
  [1; 2; 3; 5; 8; 13; 21; 34; 55; 89; 144; 233; 377; 610; 987; 1597; 2584;
   4181; 6765].

(** ** The calls of a run *)

Module Trace.

(** Entering a call on [n] is noted at the end of the log. *)
Definition enter (n : Z) : Run.Py (list Z) unit :=
  fun log => Some (tt, (log ++ [n])%list).

(** [calculate_fibonacci] run over a log of call arguments: every call notes
    its argument on entry and then executes the body of the source, whose
    recursive calls are logged calls again. *)
Fixpoint calculate_fibonacci (depth : nat) (n : Z) : Run.Py (list Z) Z :=
  match depth with
  | O => Run.too_deep
  | S d =>
      Run.bind (enter n)
        (fun _ => Run.calculate_fibonacci_body (calculate_fibonacci d) n)
  end.

End Trace.

(** The arguments of all the calls a call on [n] gives rise to, itself
    first, in the order they are entered. *)
Equations? call_trace (n : Z) : list Z by wf (Z.to_nat n) lt :=
  call_trace n with Z_le_gt_dec n 1 := {
    | left _ => [n]
    | right _ => n :: (call_trace (n - 1) ++ call_trace (n - 2))%list }.
Proof. all: lia. Qed.

Example run10 :
  Run.script 11 =
  Some (tt, mkWorld ("Starting application..." ++ newline ++
                     "The 10th Fibonacci number is: 55" ++ newline)).
Proof. reflexivity. Qed.

Example run10_short : Run.script 10 = None.
Proof. reflexivity. Qed.

Example calls7 : recursive_calls 7 = [6; 5].
Proof. reflexivity. Qed.

Example lines_ex :
  lines ("ab" ++ newline ++ newline ++ "c") = ["ab"; ""; "c"]%string.
Proof. reflexivity. Qed.

(** ** Equations of the total function *)

Lemma calculate_fibonacci_eq (n : Z) :
  calculate_fibonacci n =
  if n <=? 1 then n
  else calculate_fibonacci (n - 1) + calculate_fibonacci (n - 2).
Proof.
  rewrite calculate_fibonacci_equation_1.
  destruct (Z_le_gt_dec n 1); simpl; destruct (Z.leb_spec n 1);
    try lia; reflexivity.
Qed.

Lemma calculate_fibonacci_base (n : Z) :
  n <= 1 -> calculate_fibonacci n = n.
Proof.
  intros Hn. rewrite calculate_fibonacci_eq.
  destruct (Z.leb_spec n 1); [reflexivity | lia].
Qed.

Lemma calculate_fibonacci_step (n : Z) :
  1 < n ->
  calculate_fibonacci n = calculate_fibonacci (n - 1) + calculate_fibonacci (n - 2).
Proof.
  intros Hn. rewrite calculate_fibonacci_eq at 1.
  destruct (Z.leb_spec n 1); [lia | reflexivity].
Qed.

(** Induction along the recursion of the source: a property that holds on
    the base case and is carried from [n - 1] and [n - 2] to [n] holds
    everywhere. *)
Lemma call_induction (P : Z -> Prop) :
  (forall n, n <= 1 -> P n) ->
  (forall n, 1 < n -> P (n - 1) -> P (n - 2) -> P n) ->
  forall n, P n.
Proof.
  intros Hbase Hrec n.
  induction n as [n IH] using (well_founded_induction (Z.lt_wf 0)).
  destruct (Z_le_gt_dec n 1) as [Hle | Hgt].
  - apply Hbase; exact Hle.
  - apply Hrec; [lia | apply IH; lia | apply IH; lia].
Qed.

(** ** Recursive calls *)

Lemma recursive_calls_eq (n : Z) :
  recursive_calls n = if n <=? 1 then [] else [n - 1; n - 2].
Proof.
  unfold recursive_calls, Run.calculate_fibonacci_body.
  destruct (n <=? 1); reflexivity.
Qed.

Lemma callee_iff (m n : Z) :
  callee m n <-> 1 < n /\ (m = n - 1 \/ m = n - 2).
Proof.
  unfold callee. rewrite recursive_calls_eq.
  destruct (Z.leb_spec n 1); simpl; intuition lia.
Qed.

Lemma callee_well_founded : well_founded callee.
Proof.
  apply (well_founded_lt_compat Z Z.to_nat callee).
  intros m n H. apply callee_iff in H. lia.
Qed.

Lemma frames_pos (n : Z) : (1 <= frames n)%nat.
Proof. unfold frames. lia. Qed.

(** ** The depth-bounded run against the total function *)

Section RunFacts.
Context {St : Type}.
Implicit Types (s : St) (n v : Z) (depth : nat).

Lemma run_base depth n s :
  n <= 1 -> Run.calculate_fibonacci (S depth) n s = Some (n, s).
Proof.
  intros Hn. simpl. unfold Run.calculate_fibonacci_body.
  destruct (Z.leb_spec n 1); [reflexivity | lia].
Qed.

Lemma run_step depth n s :
  1 < n ->
  Run.calculate_fibonacci (S depth) n s =
  Run.bind (Run.calculate_fibonacci depth (n - 1))
    (fun a => Run.bind (Run.calculate_fibonacci depth (n - 2))
                (fun b => Run.ret (a + b))) s.
Proof.
  intros Hn. simpl. unfold Run.calculate_fibonacci_body.
  destruct (Z.leb_spec n 1); [lia | reflexivity].
Qed.

(** Whatever a run returns is the value of the total function, and the
    state comes back as it went in. *)
Lemma run_sound depth : forall n s v s',
  Run.calculate_fibonacci depth n s = Some (v, s') ->
  v = calculate_fibonacci n /\ s' = s.
Proof.
  induction depth as [| d IH]; intros n s v s' H.
  - discriminate H.
  - destruct (Z_le_gt_dec n 1) as [Hle | Hgt].
    + rewrite run_base in H by exact Hle.
      injection H as <- <-. rewrite calculate_fibonacci_base by exact Hle.
      split; reflexivity.
    + rewrite run_step in H by lia. unfold Run.bind, Run.ret in H.
      destruct (Run.calculate_fibonacci d (n - 1) s) as [[a s1] |] eqn:E1;
        [| discriminate H].
      destruct (Run.calculate_fibonacci d (n - 2) s1) as [[b s2] |] eqn:E2;
        [| discriminate H].
      injection H as <- <-.
      apply IH in E1. destruct E1 as [-> ->].
      apply IH in E2. destruct E2 as [-> ->].
      rewrite (calculate_fibonacci_step n) by lia.
      split; reflexivity.
Qed.

(** With [frames n] frames or more, the run returns. *)
Lemma run_complete depth : forall n s,
  (frames n <= depth)%nat ->
  Run.calculate_fibonacci depth n s = Some (calculate_fibonacci n, s).
Proof.
  induction depth as [| d IH]; intros n s H.
  - pose proof (frames_pos n). lia.
  - destruct (Z_le_gt_dec n 1) as [Hle | Hgt].
    + rewrite run_base by exact Hle.
      rewrite calculate_fibonacci_base by exact Hle. reflexivity.
    + rewrite run_step by lia. unfold Run.bind, Run.ret.
      unfold frames in H.
      rewrite IH by (unfold frames; lia).
      rewrite IH by (unfold frames; lia).
      rewrite (calculate_fibonacci_step n) by lia. reflexivity.
Qed.

(** With fewer, it does not. *)
Lemma run_too_shallow depth : forall n s,
  (depth < frames n)%nat -> Run.calculate_fibonacci depth n s = None.
Proof.
  induction depth as [| d IH]; intros n s H.
  - reflexivity.
  - unfold frames in H.
    rewrite run_step by lia. unfold Run.bind.
    rewrite IH by (unfold frames; lia). reflexivity.
Qed.

Lemma run_returns_iff depth n s :
  Run.calculate_fibonacci depth n s = Some (calculate_fibonacci n, s) <->
  (frames n <= depth)%nat.
Proof.
  split.
  - intros H. destruct (Nat.le_gt_cases (frames n) depth) as [Hle | Hlt];
      [exact Hle |].
    rewrite run_too_shallow in H by exact Hlt. discriminate H.
  - apply run_complete.
Qed.
End RunFacts.

(** ** Size of the values *)

Lemma calculate_fibonacci_nonneg : forall n,
  0 <= n -> 0 <= calculate_fibonacci n.
Proof.
  apply (call_induction (fun n => 0 <= n -> 0 <= calculate_fibonacci n)).
  - intros n Hle Hn. rewrite calculate_fibonacci_base by exact Hle. exact Hn.
  - intros n Hgt IH1 IH2 _. rewrite calculate_fibonacci_step by exact Hgt.
    specialize (IH1 ltac:(lia)). specialize (IH2 ltac:(lia)). lia.
Qed.

Lemma calculate_fibonacci_pos : forall n,
  1 <= n -> 1 <= calculate_fibonacci n.
Proof.
  apply (call_induction (fun n => 1 <= n -> 1 <= calculate_fibonacci n)).
  - intros n Hle Hn. rewrite calculate_fibonacci_base by exact Hle. exact Hn.
  - intros n Hgt IH1 _ _. rewrite calculate_fibonacci_step by exact Hgt.
    specialize (IH1 ltac:(lia)).
    pose proof (calculate_fibonacci_nonneg (n - 2) ltac:(lia)). lia.
Qed.

(** From index 6 on the value runs ahead of the index. *)
Lemma calculate_fibonacci_above : forall n,
  6 <= n -> n + 2 <= calculate_fibonacci n.
Proof.
  apply (call_induction (fun n => 6 <= n -> n + 2 <= calculate_fibonacci n)).
  - intros n Hle Hn. lia.
  - intros n Hgt IH1 IH2 Hn.
    destruct (Z_le_gt_dec 8 n) as [H8 | H8].
    + rewrite calculate_fibonacci_step by exact Hgt.
      specialize (IH1 ltac:(lia)). specialize (IH2 ltac:(lia)). lia.
    + assert (Hcases : n = 6 \/ n = 7) by lia.
      destruct Hcases as [-> | ->]; vm_compute; discriminate.
Qed.

(** The specification's sequence obeys its recurrence. *)
Lemma F_step (k : nat) : F (S (S k)) = (F (S k) + F k)%nat.
Proof. reflexivity. Qed.

Lemma calculate_fibonacci_of_nat (k : nat) :
  calculate_fibonacci (Z.of_nat k) = Z.of_nat (F k) /\
  calculate_fibonacci (Z.of_nat (S k)) = Z.of_nat (F (S k)).
Proof.
  induction k as [| k [IHk IHSk]].
  - split; reflexivity.
  - split; [exact IHSk |].
    rewrite calculate_fibonacci_step by lia.
    replace (Z.of_nat (S (S k)) - 1) with (Z.of_nat (S k)) by lia.
    replace (Z.of_nat (S (S k)) - 2) with (Z.of_nat k) by lia.
    rewrite IHk, IHSk, F_step. lia.
Qed.

(** Any integer function with the two initial values and the recurrence of
    the specification agrees with the code from 0 on. *)
Lemma calculate_fibonacci_unique (G : Z -> Z) :
  G 0 = 0 -> G 1 = 1 ->
  (forall n, 2 <= n -> G n = G (n - 1) + G (n - 2)) ->
  forall n, 0 <= n -> calculate_fibonacci n = G n.
Proof.
  intros G0 G1 Grec.
  apply (call_induction (fun n => 0 <= n -> calculate_fibonacci n = G n)).
  - intros n Hle Hn. rewrite calculate_fibonacci_base by exact Hle.
    assert (Hcases : n = 0 \/ n = 1) by lia.
    destruct Hcases as [-> | ->]; congruence.
  - intros n Hgt IH1 IH2 _.
    rewrite calculate_fibonacci_step by exact Hgt.
    rewrite Grec by lia. rewrite IH1, IH2 by lia. reflexivity.
Qed.

(** ** Properties of the specification *)

(** C1.  For every integer n >= 0, calculate_fibonacci(n) is the Fibonacci
    number F(n), where F(0) = 0, F(1) = 1 and F(n) = F(n-1) + F(n-2) for
    n >= 2. *)
Theorem calculate_fibonacci_is_F (n : Z) :
  0 <= n -> calculate_fibonacci n = Z.of_nat (F (Z.to_nat n)).
Proof.
  intros Hn.
  rewrite <- (proj1 (calculate_fibonacci_of_nat (Z.to_nat n))).
  rewrite Z2Nat.id by exact Hn. reflexivity.
Qed.

Lemma calculate_fibonacci_is_F_witness :
  0 <= 10 /\ calculate_fibonacci 10 = Z.of_nat (F (Z.to_nat 10)).
Proof.
  split; [lia | apply (calculate_fibonacci_is_F 10); lia].
Defined.

Lemma string_append_assoc (a b c : string) :
  ((a ++ b) ++ c)%string = (a ++ (b ++ c))%string.
Proof.
  induction a as [| ch a IH]; simpl; [reflexivity | rewrite IH; reflexivity].
Qed.

(** C2.  Running the entry point writes exactly two lines to standard
    output, first "Starting application..." and then
    "The 10th Fibonacci number is: 55"; and calculate_fibonacci(10) = 55.
    The run needs eleven frames: one for main and ten for the call. *)
Theorem main_writes_two_lines (depth : nat) (w : World) :
  (11 <= depth)%nat ->
  Run.main depth w =
    Some (tt, mkWorld (stdout w ++
                       ("Starting application..." ++ newline ++
                        "The 10th Fibonacci number is: 55" ++ newline))%string)
  /\ lines ("Starting application..." ++ newline ++
            "The 10th Fibonacci number is: 55" ++ newline)%string
     = ["Starting application..."; "The 10th Fibonacci number is: 55"]%string
  /\ calculate_fibonacci 10 = 55.
Proof.
  intros Hd. split; [| split; reflexivity].
  destruct depth as [| d]; [lia |].
  unfold Run.main, Run.bind, Run.print.
  rewrite run_complete by (unfold frames; lia).
  cbn [stdout]. rewrite string_append_assoc. reflexivity.
Qed.

Lemma main_writes_two_lines_witness :
  (11 <= 11)%nat /\
  Run.script 11 =
    Some (tt, mkWorld ("Starting application..." ++ newline ++
                       "The 10th Fibonacci number is: 55" ++ newline)%string).
Proof.
  split; [lia |].
  exact (proj1 (main_writes_two_lines 11 (mkWorld "") ltac:(lia))).
Defined.

(** C3.  For every integer n: when n <= 1 the function returns n itself,
    without a further call (so the values at 0 and 1 are 0 and 1); otherwise
    it returns calculate_fibonacci(n-1) + calculate_fibonacci(n-2), the two
    calls being made in that order one frame deeper. *)
Theorem calculate_fibonacci_cases (n : Z) :
  (n <= 1 ->
     calculate_fibonacci n = n /\
     forall (St : Type) (s : St) (d : nat),
       Run.calculate_fibonacci (S d) n s = Some (n, s)) /\
  (1 < n ->
     calculate_fibonacci n =
       calculate_fibonacci (n - 1) + calculate_fibonacci (n - 2) /\
     forall (St : Type) (s : St) (d : nat),
       Run.calculate_fibonacci (S d) n s =
       Run.bind (Run.calculate_fibonacci d (n - 1))
         (fun a => Run.bind (Run.calculate_fibonacci d (n - 2))
                     (fun b => Run.ret (a + b))) s) /\
  calculate_fibonacci 0 = 0 /\
  calculate_fibonacci 1 = 1.
Proof.
  repeat split.
  - apply calculate_fibonacci_base; assumption.
  - intros St s d. apply run_base; assumption.
  - apply calculate_fibonacci_step; assumption.
  - intros St s d. apply run_step; assumption.
Qed.

Lemma calculate_fibonacci_cases_witness :
  (-4 <= 1 /\ calculate_fibonacci (-4) = -4) /\
  (1 < 7 /\ calculate_fibonacci 7 = calculate_fibonacci 6 + calculate_fibonacci 5).
Proof.
  split; (split; [lia |]).
  - apply (proj1 (calculate_fibonacci_cases (-4))). lia.
  - apply (proj1 (proj2 (calculate_fibonacci_cases 7))). lia.
Defined.

(** C4.  For every negative integer n, calculate_fibonacci(n) returns n
    unchanged; the call returns normally, in a single frame, and leaves the
    state alone: nothing is raised. *)
Theorem calculate_fibonacci_negative (n : Z) :
  n < 0 ->
  calculate_fibonacci n = n /\
  forall (St : Type) (s : St) (d : nat),
    Run.calculate_fibonacci (S d) n s = Some (n, s).
Proof.
  intros Hn. split.
  - apply calculate_fibonacci_base. lia.
  - intros St s d. apply run_base. lia.
Qed.

Lemma calculate_fibonacci_negative_witness :
  (-5 < 0 /\ calculate_fibonacci (-5) = -5) /\
  (-1 < 0 /\ Run.calculate_fibonacci 1 (-1) (mkWorld "") = Some (-1, mkWorld "")).
Proof.
  split; (split; [lia |]).
  - apply (proj1 (calculate_fibonacci_negative (-5) ltac:(lia))).
  - apply (proj2 (calculate_fibonacci_negative (-1) ltac:(lia))).
Defined.

(** C5.  For every integer n with 2 <= n <= 20, calculate_fibonacci(n) =
    calculate_fibonacci(n-1) + calculate_fibonacci(n-2), and the value is the
    entry for n in the reference table 1, 2, 3, 5, ..., 4181, 6765 of the
    indices 2..20. *)
Theorem calculate_fibonacci_table (n : Z) :
  2 <= n <= 20 ->
  calculate_fibonacci n =
    calculate_fibonacci (n - 1) + calculate_fibonacci (n - 2) /\
  nth_error reference_table (Z.to_nat (n - 2)) = Some (calculate_fibonacci n).
Proof.
  intros [H2 H20]. split.
  - apply calculate_fibonacci_step. lia.
  - assert (Hk : exists k, (k < 19)%nat /\ n = Z.of_nat k + 2).
    { exists (Z.to_nat (n - 2)). lia. }
    destruct Hk as [k [Hk ->]].
    replace (Z.to_nat (Z.of_nat k + 2 - 2)) with k by lia.
    do 19 (destruct k as [| k]; [vm_compute; reflexivity |]).
    lia.
Qed.

Lemma calculate_fibonacci_table_witness :
  2 <= 20 <= 20 /\
  calculate_fibonacci 20 = calculate_fibonacci 19 + calculate_fibonacci 18 /\
  nth_error reference_table 18 = Some (calculate_fibonacci 20).
Proof.
  split; [lia | apply (calculate_fibonacci_table 20); lia].
Defined.

(** C6.  For every integer n >= 0, calculate_fibonacci(n+1) >=
    calculate_fibonacci(n). *)
Theorem calculate_fibonacci_monotone (n : Z) :
  0 <= n -> calculate_fibonacci (n + 1) >= calculate_fibonacci n.
Proof.
  intros Hn. destruct (Z.eq_dec n 0) as [-> | Hne].
  - vm_compute. discriminate.
  - rewrite (calculate_fibonacci_step (n + 1)) by lia.
    replace (n + 1 - 1) with n by lia.
    pose proof (calculate_fibonacci_nonneg (n + 1 - 2) ltac:(lia)). lia.
Qed.

Lemma calculate_fibonacci_monotone_witness :
  0 <= 1 /\ calculate_fibonacci (1 + 1) >= calculate_fibonacci 1.
Proof.
  split; [lia | apply (calculate_fibonacci_monotone 1); lia].
Defined.

(** C7.  Two calls of calculate_fibonacci on the same n return the same
    value, whatever the state and the depth each is made at, and each leaves
    the state exactly as it found it. *)
Theorem calculate_fibonacci_pure {St : Type} (n : Z) (d1 d2 : nat)
    (s1 s1' s2 s2' : St) (v1 v2 : Z) :
  Run.calculate_fibonacci d1 n s1 = Some (v1, s1') ->
  Run.calculate_fibonacci d2 n s2 = Some (v2, s2') ->
  v1 = v2 /\ s1' = s1 /\ s2' = s2.
Proof.
  intros H1 H2.
  apply run_sound in H1. destruct H1 as [-> ->].
  apply run_sound in H2. destruct H2 as [-> ->].
  repeat split.
Qed.

Lemma calculate_fibonacci_pure_witness :
  Run.calculate_fibonacci 10 10 (mkWorld "") = Some (55, mkWorld "") /\
  Run.calculate_fibonacci 12 10 (mkWorld "x") = Some (55, mkWorld "x") /\
  (55 = 55 /\ mkWorld "" = mkWorld "" /\ mkWorld "x" = mkWorld "x").
Proof.
  split; [reflexivity | split; [reflexivity |]].
  apply (calculate_fibonacci_pure 10 10 12
           (mkWorld "") (mkWorld "") (mkWorld "x") (mkWorld "x") 55 55);
    reflexivity.
Defined.

(** C8.  calculate_fibonacci terminates on every integer n: given
    max(1, n) frames the call returns; every recursive call is on a
    strictly smaller argument; no chain of nested calls goes on for ever,
    and the calls that make no further call are exactly those with n <= 1;
    a negative n returns in its own frame, with no recursive call. *)
Theorem calculate_fibonacci_terminates (n : Z) :
  (forall (St : Type) (s : St) (depth : nat),
     (frames n <= depth)%nat ->
     Run.calculate_fibonacci depth n s = Some (calculate_fibonacci n, s)) /\
  (forall m, callee m n -> m < n) /\
  Acc callee n /\
  (recursive_calls n = [] <-> n <= 1) /\
  (n < 0 ->
     recursive_calls n = [] /\
     forall (St : Type) (s : St),
       Run.calculate_fibonacci 1 n s = Some (n, s)).
Proof.
  split; [| split; [| split; [| split]]].
  - intros St s depth. apply run_complete.
  - intros m H. apply callee_iff in H. lia.
  - apply callee_well_founded.
  - rewrite recursive_calls_eq.
    destruct (Z.leb_spec n 1); split; intros H0; try lia;
      [reflexivity | discriminate H0].
  - intros Hn. split.
    + rewrite recursive_calls_eq.
      destruct (Z.leb_spec n 1); [reflexivity | lia].
    + intros St s. apply run_base. lia.
Qed.

Lemma calculate_fibonacci_terminates_witness :
  ((frames 10 <= 10)%nat /\
   Run.calculate_fibonacci 10 10 (mkWorld "") = Some (55, mkWorld "")) /\
  (callee 9 10 /\ 9 < 10) /\
  (-3 < 0 /\ recursive_calls (-3) = []).
Proof.
  split; [| split].
  - split; [vm_compute; lia |].
    apply (proj1 (calculate_fibonacci_terminates 10) World (mkWorld "") 10%nat).
    vm_compute; lia.
  - split; [vm_compute; auto |].
    apply (proj1 (proj2 (calculate_fibonacci_terminates 10)) 9).
    vm_compute; auto.
  - split; [lia |].
    apply (proj2 (proj2 (proj2 (proj2 (calculate_fibonacci_terminates (-3)))))).
    lia.
Defined.

(** C9.  For every integer n >= 2, calculate_fibonacci(n+1) >
    calculate_fibonacci(n). *)
Theorem calculate_fibonacci_strictly_increasing (n : Z) :
  2 <= n -> calculate_fibonacci (n + 1) > calculate_fibonacci n.
Proof.
  intros Hn.
  rewrite (calculate_fibonacci_step (n + 1)) by lia.
  replace (n + 1 - 1) with n by lia.
  pose proof (calculate_fibonacci_pos (n + 1 - 2) ltac:(lia)). lia.
Qed.

Lemma calculate_fibonacci_strictly_increasing_witness :
  2 <= 2 /\ calculate_fibonacci (2 + 1) > calculate_fibonacci 2.
Proof.
  split; [lia | apply (calculate_fibonacci_strictly_increasing 2); lia].
Defined.

(** C10.  For every integer n, calculate_fibonacci(n) = n exactly when
    n <= 1 or n = 5. *)
Theorem calculate_fibonacci_fixed_points (n : Z) :
  calculate_fibonacci n = n <-> n <= 1 \/ n = 5.
Proof.
  split.
  - intros Hfix.
    destruct (Z_le_gt_dec n 1) as [Hle | Hgt]; [left; exact Hle |].
    destruct (Z_le_gt_dec 6 n) as [H6 | H6].
    + pose proof (calculate_fibonacci_above n H6). lia.
    + assert (Hcases : n = 2 \/ n = 3 \/ n = 4 \/ n = 5) by lia.
      destruct Hcases as [-> | [-> | [-> | ->]]];
        try (vm_compute in Hfix; discriminate Hfix).
      right; reflexivity.
  - intros [Hle | ->].
    + apply calculate_fibonacci_base; exact Hle.
    + reflexivity.
Qed.

Lemma calculate_fibonacci_fixed_points_witness :
  (5 <= 1 \/ 5 = 5) /\ calculate_fibonacci 5 = 5.
Proof.
  split; [right; reflexivity |].
  apply (proj2 (calculate_fibonacci_fixed_points 5)). right; reflexivity.
Defined.

Example trace4 :
  Trace.calculate_fibonacci 4 4 [] = Some (3, [4; 3; 2; 1; 0; 1; 2; 1; 0]).
Proof. reflexivity. Qed.

Example call_trace4 : call_trace 4 = [4; 3; 2; 1; 0; 1; 2; 1; 0].
Proof. reflexivity. Qed.

(** ** The log of calls *)

Lemma call_trace_eq (n : Z) :
  call_trace n =
  n :: (if n <=? 1 then [] else call_trace (n - 1) ++ call_trace (n - 2))%list.
Proof.
  rewrite call_trace_equation_1.
  destruct (Z_le_gt_dec n 1); simpl; destruct (Z.leb_spec n 1);
    try lia; reflexivity.
Qed.

Lemma call_trace_base (n : Z) : n <= 1 -> call_trace n = [n].
Proof.
  intros Hn. rewrite call_trace_eq.
  destruct (Z.leb_spec n 1); [reflexivity | lia].
Qed.

Lemma call_trace_step (n : Z) :
  1 < n -> call_trace n = n :: (call_trace (n - 1) ++ call_trace (n - 2))%list.
Proof.
  intros Hn. rewrite call_trace_eq at 1.
  destruct (Z.leb_spec n 1); [lia | reflexivity].
Qed.

Lemma trace_base (depth : nat) (n : Z) (log : list Z) :
  n <= 1 ->
  Trace.calculate_fibonacci (S depth) n log = Some (n, (log ++ [n])%list).
Proof.
  intros Hn. simpl. unfold Run.bind, Trace.enter, Run.calculate_fibonacci_body.
  destruct (Z.leb_spec n 1); [reflexivity | lia].
Qed.

Lemma trace_step (depth : nat) (n : Z) (log : list Z) :
  1 < n ->
  Trace.calculate_fibonacci (S depth) n log =
  Run.bind (Trace.calculate_fibonacci depth (n - 1))
    (fun a => Run.bind (Trace.calculate_fibonacci depth (n - 2))
                (fun b => Run.ret (a + b))) (log ++ [n])%list.
Proof.
  intros Hn. simpl. unfold Run.bind at 1. unfold Trace.enter.
  unfold Run.calculate_fibonacci_body.
  destruct (Z.leb_spec n 1); [lia | reflexivity].
Qed.

(** A logged run returns the value of the total function and extends the
    log by [call_trace n]. *)
Lemma trace_sound (depth : nat) : forall n log v log',
  Trace.calculate_fibonacci depth n log = Some (v, log') ->
  v = calculate_fibonacci n /\ log' = (log ++ call_trace n)%list.
Proof.
  induction depth as [| d IH]; intros n log v log' H.
  - discriminate H.
  - destruct (Z_le_gt_dec n 1) as [Hle | Hgt].
    + rewrite trace_base in H by exact Hle. injection H as <- <-.
      rewrite calculate_fibonacci_base, call_trace_base by exact Hle.
      split; reflexivity.
    + rewrite trace_step in H by lia. unfold Run.bind, Run.ret in H.
      destruct (Trace.calculate_fibonacci d (n - 1) (log ++ [n])%list)
        as [[a l1] |] eqn:E1; [| discriminate H].
      destruct (Trace.calculate_fibonacci d (n - 2) l1)
        as [[b l2] |] eqn:E2; [| discriminate H].
      injection H as <- <-.
      apply IH in E1. destruct E1 as [-> ->].
      apply IH in E2. destruct E2 as [-> ->].
      rewrite (calculate_fibonacci_step n), (call_trace_step n) by lia.
      split; [reflexivity |].
      rewrite <- !app_assoc. reflexivity.
Qed.

Lemma trace_complete (depth : nat) : forall n log,
  (frames n <= depth)%nat ->
  Trace.calculate_fibonacci depth n log =
  Some (calculate_fibonacci n, (log ++ call_trace n)%list).
Proof.
  induction depth as [| d IH]; intros n log H.
  - pose proof (frames_pos n). lia.
  - destruct (Z_le_gt_dec n 1) as [Hle | Hgt].
    + rewrite trace_base by exact Hle.
      rewrite calculate_fibonacci_base, call_trace_base by exact Hle.
      reflexivity.
    + rewrite trace_step by lia. unfold Run.bind, Run.ret.
      unfold frames in H.
      rewrite IH by (unfold frames; lia).
      rewrite IH by (unfold frames; lia).
      rewrite (calculate_fibonacci_step n), (call_trace_step n) by lia.
      rewrite <- !app_assoc. reflexivity.
Qed.



Lemma call_trace_range : forall n,
  0 <= n -> Forall (fun m => 0 <= m <= n) (call_trace n).
Proof.
  apply (call_induction (fun n => 0 <= n ->
    Forall (fun m => 0 <= m <= n) (call_trace n))).
  - intros n Hle Hn. rewrite call_trace_base by exact Hle.
    constructor; [lia | constructor].
  - intros n Hgt IH1 IH2 _.
    rewrite call_trace_step by exact Hgt.
    constructor; [lia |]. apply Forall_app. split.
    + apply Forall_impl with (P := fun m => 0 <= m <= n - 1);
        [intros m Hm; lia | apply IH1; lia].
    + apply Forall_impl with (P := fun m => 0 <= m <= n - 2);
        [intros m Hm; lia | apply IH2; lia].
Qed.

(** ** Order and growth of the values *)

Lemma calculate_fibonacci_succ_lt (n : Z) :
  2 <= n -> calculate_fibonacci n < calculate_fibonacci (n + 1).
Proof.
  intros Hn.
  rewrite (calculate_fibonacci_step (n + 1)) by lia.
  replace (n + 1 - 1) with n by lia.
  pose proof (calculate_fibonacci_pos (n + 1 - 2) ltac:(lia)). lia.
Qed.

Lemma calculate_fibonacci_lt (a b : Z) :
  2 <= a -> a < b -> calculate_fibonacci a < calculate_fibonacci b.
Proof.
  intros Ha Hab.
  assert (Hk : forall k, 0 <= k ->
            calculate_fibonacci a < calculate_fibonacci (a + 1 + k)).
  { apply natlike_ind.
    - rewrite Z.add_0_r. apply calculate_fibonacci_succ_lt; exact Ha.
    - intros k Hk IH.
      pose proof (calculate_fibonacci_succ_lt (a + 1 + k) ltac:(lia)) as Hs.
      replace (a + 1 + Z.succ k) with (a + 1 + k + 1) by lia. lia. }
  replace b with (a + 1 + (b - a - 1)) by lia. apply Hk. lia.
Qed.

Lemma pow2_double (k : Z) : 1 <= k -> 2 ^ k = 2 * 2 ^ (k - 1).
Proof.
  intros Hk. replace k with (Z.succ (k - 1)) at 1 by lia.
  apply Z.pow_succ_r. lia.
Qed.

(** ** Further properties of [calculate_fibonacci] *)

(** X1.  A call on n needs exactly max(1, n) nested frames: with fewer the
    run gives up, with that many or more it returns the value and leaves the
    state alone. *)
Theorem calculate_fibonacci_depth_exact {St : Type}
    (depth : nat) (n : Z) (s : St) :
  (Run.calculate_fibonacci depth n s = None <->
     Z.of_nat depth < Z.max 1 n) /\
  (Run.calculate_fibonacci depth n s = Some (calculate_fibonacci n, s) <->
     Z.max 1 n <= Z.of_nat depth).
Proof.
  destruct (Nat.le_gt_cases (frames n) depth) as [Hle | Hlt].
  - rewrite (run_complete depth n s Hle). unfold frames in Hle.
    split; split; intros H; try discriminate H; try reflexivity; lia.
  - rewrite (run_too_shallow depth n s Hlt). unfold frames in Hlt.
    split; split; intros H; try discriminate H; try reflexivity; lia.
Qed.

Lemma calculate_fibonacci_depth_exact_witness :
  Run.calculate_fibonacci 9 10 (mkWorld "") = None /\
  Run.calculate_fibonacci 10 10 (mkWorld "") = Some (55, mkWorld "").
Proof.
  split.
  - apply (proj1 (calculate_fibonacci_depth_exact 9 10 (mkWorld ""))).
    vm_compute. reflexivity.
  - apply (proj2 (calculate_fibonacci_depth_exact 10 10 (mkWorld ""))).
    vm_compute. discriminate.
Defined.

(** X2.  The result is non-negative exactly when the argument is. *)
Theorem calculate_fibonacci_sign (n : Z) :
  0 <= calculate_fibonacci n <-> 0 <= n.
Proof.
  split.
  - intros H. destruct (Z_le_gt_dec 0 n) as [Hn | Hn]; [exact Hn |].
    rewrite calculate_fibonacci_base in H by lia. exact H.
  - apply calculate_fibonacci_nonneg.
Qed.

Lemma calculate_fibonacci_sign_witness :
  0 <= calculate_fibonacci 7 /\ ~ 0 <= calculate_fibonacci (-7).
Proof.
  split.
  - apply (proj2 (calculate_fibonacci_sign 7)). lia.
  - intros H. apply (proj1 (calculate_fibonacci_sign (-7))) in H. lia.
Defined.

(** X3.  The recurrence calculate_fibonacci(n) = calculate_fibonacci(n-1) +
    calculate_fibonacci(n-2) holds exactly for n > 1: at every n <= 1 the two
    sides differ. *)
Theorem calculate_fibonacci_recurrence_iff (n : Z) :
  calculate_fibonacci n =
    calculate_fibonacci (n - 1) + calculate_fibonacci (n - 2)
  <-> 1 < n.
Proof.
  split.
  - intros H. destruct (Z_le_gt_dec n 1) as [Hle | Hgt]; [| lia].
    rewrite !calculate_fibonacci_base in H by lia. lia.
  - apply calculate_fibonacci_step.
Qed.

Lemma calculate_fibonacci_recurrence_iff_witness :
  calculate_fibonacci 1 <> calculate_fibonacci 0 + calculate_fibonacci (-1) /\
  calculate_fibonacci 2 = calculate_fibonacci 1 + calculate_fibonacci 0.
Proof.
  split.
  - intros H. apply (proj1 (calculate_fibonacci_recurrence_iff 1)) in H. lia.
  - apply (proj2 (calculate_fibonacci_recurrence_iff 2)). lia.
Defined.

(** X4.  Two different arguments give the same result only when they are 1
    and 2. *)
Theorem calculate_fibonacci_collisions (a b : Z) :
  calculate_fibonacci a = calculate_fibonacci b <->
  a = b \/ (a = 1 /\ b = 2) \/ (a = 2 /\ b = 1).
Proof.
  split.
  - intros H.
    destruct (Z_le_gt_dec a 1) as [Ha | Ha];
      destruct (Z_le_gt_dec b 1) as [Hb | Hb].
    + rewrite !calculate_fibonacci_base in H by assumption. left; exact H.
    + rewrite (calculate_fibonacci_base a) in H by exact Ha.
      pose proof (calculate_fibonacci_pos b ltac:(lia)) as Hpos.
      destruct (Z.eq_dec b 2) as [-> | Hb2]; [vm_compute in H; lia |].
      pose proof (calculate_fibonacci_lt 2 b ltac:(lia) ltac:(lia)) as Hlt.
      change (calculate_fibonacci 2) with 1 in Hlt. lia.
    + rewrite (calculate_fibonacci_base b) in H by exact Hb.
      pose proof (calculate_fibonacci_pos a ltac:(lia)) as Hpos.
      destruct (Z.eq_dec a 2) as [-> | Ha2]; [vm_compute in H; lia |].
      pose proof (calculate_fibonacci_lt 2 a ltac:(lia) ltac:(lia)) as Hlt.
      change (calculate_fibonacci 2) with 1 in Hlt. lia.
    + destruct (Z.lt_trichotomy a b) as [Hab | [Hab | Hab]].
      * pose proof (calculate_fibonacci_lt a b ltac:(lia) Hab). lia.
      * left; exact Hab.
      * pose proof (calculate_fibonacci_lt b a ltac:(lia) Hab). lia.
  - intros [-> | [[-> ->] | [-> ->]]]; reflexivity.
Qed.

Lemma calculate_fibonacci_collisions_witness :
  calculate_fibonacci 1 = calculate_fibonacci 2 /\
  calculate_fibonacci 3 <> calculate_fibonacci 4.
Proof.
  split.
  - apply (proj2 (calculate_fibonacci_collisions 1 2)). right; left; lia.
  - intros H. apply (proj1 (calculate_fibonacci_collisions 3 4)) in H. lia.
Defined.

(** X5.  For n >= 0 the result is below 2^n, and at the odd index 2k+1 it
    is at least 2^k: the values grow exponentially. *)
Theorem calculate_fibonacci_growth (n : Z) :
  0 <= n ->
  calculate_fibonacci n < 2 ^ n /\ 2 ^ n <= calculate_fibonacci (2 * n + 1).
Proof.
  intros Hn. split.
  - revert n Hn.
    apply (call_induction (fun n => 0 <= n -> calculate_fibonacci n < 2 ^ n)).
    + intros n Hle Hn. assert (Hcases : n = 0 \/ n = 1) by lia.
      destruct Hcases as [-> | ->]; reflexivity.
    + intros n Hgt IH1 IH2 _.
      rewrite calculate_fibonacci_step by exact Hgt.
      specialize (IH1 ltac:(lia)). specialize (IH2 ltac:(lia)).
      pose proof (pow2_double n ltac:(lia)) as E1.
      pose proof (pow2_double (n - 1) ltac:(lia)) as E2.
      replace (n - 1 - 1) with (n - 2) in E2 by lia.
      pose proof (Z.pow_pos_nonneg 2 (n - 2) ltac:(lia) ltac:(lia)). lia.
  - revert n Hn. apply natlike_ind.
    + vm_compute. discriminate.
    + intros k Hk IH.
      rewrite Z.pow_succ_r by exact Hk.
      rewrite (calculate_fibonacci_step (2 * Z.succ k + 1)) by lia.
      rewrite (calculate_fibonacci_step (2 * Z.succ k + 1 - 1)) by lia.
      replace (2 * Z.succ k + 1 - 1 - 1) with (2 * k + 1) by lia.
      replace (2 * Z.succ k + 1 - 2) with (2 * k + 1) by lia.
      pose proof (calculate_fibonacci_nonneg (2 * Z.succ k + 1 - 1 - 2)
                    ltac:(lia)). lia.
Qed.

Lemma calculate_fibonacci_growth_witness :
  0 <= 6 /\ calculate_fibonacci 6 < 2 ^ 6 /\ 2 ^ 6 <= calculate_fibonacci 13.
Proof.
  split; [lia | apply (calculate_fibonacci_growth 6); lia].
Defined.

(** X6.  Addition law: for m >= 0 and n >= 1,
    calculate_fibonacci(m+n) = calculate_fibonacci(m+1) * calculate_fibonacci(n)
    + calculate_fibonacci(m) * calculate_fibonacci(n-1). *)
Theorem calculate_fibonacci_add (m n : Z) :
  0 <= m -> 1 <= n ->
  calculate_fibonacci (m + n) =
    calculate_fibonacci (m + 1) * calculate_fibonacci n +
    calculate_fibonacci m * calculate_fibonacci (n - 1).
Proof.
  intros Hm Hn. revert n Hn.
  apply (call_induction (fun n => 1 <= n ->
    calculate_fibonacci (m + n) =
      calculate_fibonacci (m + 1) * calculate_fibonacci n +
      calculate_fibonacci m * calculate_fibonacci (n - 1))).
  - intros n Hle Hn. assert (n = 1) as -> by lia.
    change (calculate_fibonacci 1) with 1.
    change (calculate_fibonacci (1 - 1)) with 0. lia.
  - intros n Hgt IH1 IH2 _.
    destruct (Z.eq_dec n 2) as [-> | Hn2].
    + rewrite (calculate_fibonacci_step (m + 2)) by lia.
      change (calculate_fibonacci 2) with 1.
      change (calculate_fibonacci (2 - 1)) with 1.
      replace (m + 2 - 1) with (m + 1) by lia.
      replace (m + 2 - 2) with m by lia. lia.
    + specialize (IH1 ltac:(lia)). specialize (IH2 ltac:(lia)).
      rewrite (calculate_fibonacci_step (m + n)) by lia.
      replace (m + n - 1) with (m + (n - 1)) by lia.
      replace (m + n - 2) with (m + (n - 2)) by lia.
      rewrite IH1, IH2.
      rewrite (calculate_fibonacci_step n) by lia.
      rewrite (calculate_fibonacci_step (n - 1)) by lia.
      replace (n - 1 - 1) with (n - 2) by lia.
      replace (n - 1 - 2) with (n - 2 - 1) by lia.
      ring.
Qed.

Lemma calculate_fibonacci_add_witness :
  0 <= 4 /\ 1 <= 6 /\
  calculate_fibonacci (4 + 6) =
    calculate_fibonacci (4 + 1) * calculate_fibonacci 6 +
    calculate_fibonacci 4 * calculate_fibonacci (6 - 1).
Proof.
  split; [lia | split; [lia | apply (calculate_fibonacci_add 4 6); lia]].
Defined.

(** ** What a run calls *)

(** X7.  A run started on n >= 0 only ever calls calculate_fibonacci on
    arguments between 0 and n: the branch that hands a negative argument
    back is never reached from inside. *)
Theorem calls_stay_in_range (depth : nat) (n v : Z) (log log' : list Z) :
  0 <= n ->
  Trace.calculate_fibonacci depth n log = Some (v, log') ->
  exists t, log' = (log ++ t)%list /\ Forall (fun m => 0 <= m <= n) t.
Proof.
  intros Hn H. apply trace_sound in H. destruct H as [_ ->].
  exists (call_trace n). split; [reflexivity |].
  apply call_trace_range; exact Hn.
Qed.

Lemma calls_stay_in_range_witness :
  0 <= 3 /\
  Trace.calculate_fibonacci 3 3 [7] = Some (2, [7; 3; 2; 1; 0; 1]) /\
  exists t, [7; 3; 2; 1; 0; 1] = ([7] ++ t)%list /\
            Forall (fun m => 0 <= m <= 3) t.
Proof.
  split; [lia | split; [reflexivity |]].
  apply (calls_stay_in_range 3 3 2 [7] [7; 3; 2; 1; 0; 1]);
    [lia | reflexivity].
Defined.





(** Logging the calls changes nothing else: a logged run returns
    exactly when the plain run does, with the same value, and only appends
    to the log. *)
Theorem trace_agrees_with_run {St : Type}
    (depth : nat) (n : Z) (log : list Z) (s : St) :
  (Trace.calculate_fibonacci depth n log = None <->
     Run.calculate_fibonacci depth n s = None) /\
  (forall v log',
     Trace.calculate_fibonacci depth n log = Some (v, log') ->
     Run.calculate_fibonacci depth n s = Some (v, s) /\
     exists t, log' = (log ++ t)%list).
Proof.
  destruct (Nat.le_gt_cases (frames n) depth) as [Hle | Hlt].
  - rewrite (trace_complete depth n log Hle), (run_complete depth n s Hle).
    split.
    + split; intros H; discriminate H.
    + intros v log' H. injection H as <- <-.
      split; [reflexivity | exists (call_trace n); reflexivity].
  - rewrite (run_too_shallow depth n s Hlt).
    destruct (Trace.calculate_fibonacci depth n log) as [[v l] |] eqn:E.
    + exfalso. clear s.
      revert n log v l Hlt E.
      induction depth as [| d IH]; intros n log v l Hlt E.
      * discriminate E.
      * unfold frames in Hlt. rewrite trace_step in E by lia.
        unfold Run.bind in E.
        destruct (Trace.calculate_fibonacci d (n - 1) (log ++ [n])%list)
          as [[a l1] |] eqn:E1; [| discriminate E].
        apply (IH (n - 1) (log ++ [n])%list a l1); [unfold frames; lia |].
        exact E1.
    + split; [split; reflexivity | intros v log' H; discriminate H].
Qed.
